(** * Toric morphisms, normal form games and local frames

    A shallow embedding of three modules of the library:

    - [sage/game_theory/normal_form_game.py]  (module [Game]),
    - [sage/manifolds/local_frame.py]         (module [Frames]),
    - [sage/schemes/toric/morphism.py]        (module [Toric]).

    Python exceptions are values of [exn]; a method that may raise returns
    a [result].  Objects that are mutated and shared (the local frames)
    live in an explicit store.  The first part of the file holds the
    definitions, the second part the theorems. *)

From Stdlib Require Import ZArith QArith Lia.
From stdpp Require Import base option list strings.

Local Open Scope Z_scope.
Local Open Scope string_scope.
Local Open Scope list_scope.

(* ===================================================================== *)
(** * Part I: definitions                                                 *)
(* ===================================================================== *)

(** ** Python exceptions and results *)

Module Py.

Inductive exn : Type :=
| TypeError (msg : string)
| ValueError (msg : string)
| NotImplementedError (msg : string)
| AttributeError (msg : string)
| IndexError (msg : string)
| KeyError (msg : string).

Inductive result (A : Type) : Type :=
| Return (a : A)
| Raise (e : exn).

Arguments Return {A} a.
Arguments Raise {A} e.

Definition bind {A B : Type} (m : result A) (k : A -> result B) : result B :=
  match m with
  | Return a => k a
  | Raise e => Raise e
  end.

Definition returns {A : Type} (m : result A) : bool :=
  match m with Return _ => true | Raise _ => false end.

(** Python 2 [cmp] on integers. *)
Definition cmp_Z (a b : Z) : Z :=
  match Z.compare a b with Lt => -1 | Eq => 0 | Gt => 1 end.

(** Python 2 [cmp] on sequences: the first pair of items that are not
    [==] decides; when one sequence is a prefix of the other the lengths
    decide. *)
Fixpoint cmp_list {A : Type} (cmpA : A -> A -> Z) (l1 l2 : list A) : Z :=
  match l1, l2 with
  | [], [] => 0
  | [], _ :: _ => -1
  | _ :: _, [] => 1
  | a :: l1', b :: l2' =>
      if Z.eqb (cmpA a b) 0 then cmp_list cmpA l1' l2' else cmpA a b
  end.

End Py.

(** [x ← m; k] runs [m] and passes its value on; an exception of [m]
    propagates. *)
#[export] Instance result_bind : MBind Py.result := fun A B k m => Py.bind m k.
#[export] Instance result_ret : MRet Py.result := fun A a => Py.Return a.

(** ** Normal form games ([normal_form_game.py]) *)

Module Game.
Import Py.

(** A Sage matrix over the integers, as its list of rows. *)
Definition matrix := list (list Z).

Definition rows (m : matrix) : list (list Z) := m.

(** [m.columns()]: as many columns as the first row has entries. *)
Definition ncols (m : matrix) : nat :=
  match m with [] => 0%nat | r :: _ => length r end.

(** Truth value of a matrix in [if m]: some entry is not zero. *)
Definition matrix_nonzero (m : matrix) : bool :=
  existsb (existsb (fun z => negb (Z.eqb z 0))) m.

(** [- m] *)
Definition matrix_neg (m : matrix) : matrix := map (map Z.opp) m.

(** [m[k]] for [k = (i, j)]. *)
Definition matrix_get (m : matrix) (k : nat * nat) : result Z :=
  match m !! fst k with
  | Some r =>
      match r !! snd k with
      | Some z => Return z
      | None => Raise (IndexError "matrix index out of range")
      end
  | None => Raise (IndexError "matrix index out of range")
  end.

(** A keyword argument whose default is [False]. *)
Inductive kwarg (A : Type) : Type :=
| PyFalse
| Given (a : A).
Arguments PyFalse {A}.
Arguments Given {A} a.

(** The table of a [gambit.Game]: the number of strategies of each
    player and, for every strategy profile that was assigned, the payoff
    of each player.  [matrix1] and [matrix2] are the attributes that
    [NormalFormGame.__init__] adds. *)
Record game : Type := mkGame {
  dims : list nat;
  payoffs : list (list nat * (nat * Z));
  matrix1 : option matrix;
  matrix2 : option matrix
}.

(** [len(self.players)] *)
Definition nplayers (g : game) : nat := length (dims g).

(** [Game.new_table(dims)] *)
Definition new_table (d : list nat) : game :=
  {| dims := d; payoffs := []; matrix1 := None; matrix2 := None |}.

(** The payoff of [player] in the cell [profile]; a cell that was never
    assigned holds 0. *)
Fixpoint payoff_in (l : list (list nat * (nat * Z)))
    (profile : list nat) (player : nat) : Z :=
  match l with
  | [] => 0
  | (p, (q, z)) :: l' =>
      if decide (p = profile /\ q = player) then z
      else payoff_in l' profile player
  end.

Definition payoff (g : game) (profile : list nat) (player : nat) : Z :=
  payoff_in (payoffs g) profile player.

Definition in_table (g : game) (profile : list nat) : bool :=
  Nat.eqb (length profile) (length (dims g)) &&
  forallb (fun '(s, d) => Nat.ltb s d) (combine profile (dims g)).

(** [self[k][player] = z] *)
Definition set_payoff (g : game) (profile : list nat) (player : nat) (z : Z)
    : result game :=
  if in_table g profile && Nat.ltb player (nplayers g) then
    Return {| dims := dims g;
              payoffs := (profile, (player, z)) :: payoffs g;
              matrix1 := matrix1 g;
              matrix2 := matrix2 g |}
  else Raise (IndexError "no such outcome").

Definition truthy_matrix (a : kwarg matrix) : bool :=
  match a with PyFalse => false | Given m => matrix_nonzero m end.

(** A [gambit.Game] object is true in a condition. *)
Definition truthy_game (a : kwarg game) : bool :=
  match a with PyFalse => false | Given _ => true end.

(** [x.rows()] on a keyword argument: the default [False] has no such
    method. *)
Definition kwarg_rows (a : kwarg matrix) : result (list (list Z)) :=
  match a with
  | PyFalse => Raise (AttributeError "'bool' object has no attribute 'rows'")
  | Given m => Return (rows m)
  end.

(** [NormalFormGame.__new__] *)
Definition __new__ (m1 m2 : kwarg matrix) (gm : kwarg game) : result game :=
  if truthy_matrix m1 && truthy_game gm then
    Raise (ValueError "Can't input both a matrix and a game.")
  else if truthy_matrix m1 then
    r1 ← kwarg_rows m1;
    r2 ← kwarg_rows m2;
    Return (new_table [length r1; length r2])
  else
    match gm with
    | Given g => Return g
    | PyFalse => Return (new_table [])
    end.

(** [itertools.product(range(r), range(c))] *)
Definition product (r c : nat) : list (nat * nat) :=
  flat_map (fun i => map (fun j => (i, j)) (seq 0 c)) (seq 0 r).

(** The body of the loop of [__init__]. *)
Definition fill_cell (a b : matrix) (g : game) (k : nat * nat) : result game :=
  x ← matrix_get a k;
  g1 ← set_payoff g [fst k; snd k] 0 x;
  y ← matrix_get b k;
  set_payoff g1 [fst k; snd k] 1 y.

Fixpoint fill (a b : matrix) (ks : list (nat * nat)) (g : game) : result game :=
  match ks with
  | [] => Return g
  | k :: ks' => g1 ← fill_cell a b g k; fill a b ks' g1
  end.

(** [to_matrix]: a stub in the source, it returns [None]. *)
Definition to_matrix (g : game) : game := g.

(** [NormalFormGame.__init__] *)
Definition __init__ (self : game) (m1 m2 : kwarg matrix) (gm : kwarg game)
    : result game :=
  match m1 with
  | Given a =>
      if truthy_matrix m1 then
        let b := if truthy_matrix m2
                 then match m2 with Given b => b | PyFalse => a end
                 else matrix_neg a in
        let self1 := {| dims := dims self; payoffs := payoffs self;
                        matrix1 := Some a; matrix2 := Some b |} in
        fill a b (product (length (rows a)) (ncols a)) self1
      else Return (to_matrix self)
  | PyFalse => Return (to_matrix self)
  end.

(** [NormalFormGame(matrix1=..., matrix2=..., game=...)]: [__new__], then
    [__init__] on the object it returned. *)
Definition NormalFormGame (m1 m2 : kwarg matrix) (gm : kwarg game) : result game :=
  g ← __new__ m1 m2 gm;
  __init__ g m1 m2 gm.

(** The game is zero-sum on the cells of [matrix1]. *)
Definition zero_sum_on (g : game) (a : matrix) : Prop :=
  forall i j, (i < length (rows a))%nat -> (j < ncols a)%nat ->
    payoff g [i; j] 0 + payoff g [i; j] 1 = 0.

Section Solver.
(** A mixed strategy profile returned by gambit. *)
Variable profile : Type.
(** [ExternalLCPSolver().solve] *)
Variable solve : game -> list profile.
(** [is_package_installed] *)
Variable is_package_installed : string -> bool.

Definition too_many_players : string :=
  "Nash equilibrium for games with more than 2 players have not been implemented yet.Please see the gambit website [LINK] that has a variety of available algorithms.".

(** [NormalFormGame.obtain_Nash]; [None] is Python's [None], returned
    when the end of the body is reached. *)
Definition obtain_Nash (self : game) (algorithm : string)
    : result (option (list profile)) :=
  if String.eqb algorithm "LCP" then
    if Nat.ltb 2 (nplayers self) then
      Raise (NotImplementedError too_many_players)
    else Return (Some (solve self))
  else if String.eqb algorithm "lrs" &&
          negb (is_package_installed "lrs") then
    Raise (NotImplementedError "lrs is not installed")
  else Return None.

(** [obtain_Nash()] with the default [algorithm="LCP"]. *)
Definition obtain_Nash_default (self : game) : result (option (list profile)) :=
  obtain_Nash self "LCP".
End Solver.

End Game.

(** ** Local frames ([local_frame.py]) *)

Module Frames.
Import Py.
Local Open Scope nat_scope.

(** An open subset of the base manifold is a unique object; it is named
    by a number, and [==] as well as the hashing of dictionary keys are
    equality of names. *)
Definition domain : Type := nat.

(** The attributes of a [LocalFrame] that [restrict] reads and writes.
    [_symbol] stands for the naming arguments of the constructor
    ([symbol], [latex_symbol], [indices], [latex_indices], [symbol_dual],
    [latex_symbol_dual]), which [restrict] hands on unchanged.  Frames
    refer to each other by their address in the store; a set is the list
    of its elements and a dictionary the list of its items, both in
    insertion order. *)
Record LocalFrame : Type := mkLocalFrame {
  _domain : domain;
  _symbol : string;
  _subframes : list nat;
  _superframes : list nat;
  _restrictions : list (domain * nat)
}.

(** The store of all frame objects. *)
Abbreviation store := (list LocalFrame).

Definition no_frame : LocalFrame := mkLocalFrame 0 "" [] [] [].

(** The object at an address. *)
Definition frame_at (h : store) (i : nat) : LocalFrame :=
  default no_frame (h !! i).

(** [d[k]] and [k in d] *)
Fixpoint dict_get (d : list (domain * nat)) (k : domain) : option nat :=
  match d with
  | [] => None
  | (k', v) :: d' => if Nat.eqb k' k then Some v else dict_get d' k
  end.

Definition dict_mem (d : list (domain * nat)) (k : domain) : bool :=
  match dict_get d k with Some _ => true | None => false end.

(** [d[k] = v] *)
Fixpoint dict_set (d : list (domain * nat)) (k : domain) (v : nat)
    : list (domain * nat) :=
  match d with
  | [] => [(k, v)]
  | (k', v') :: d' =>
      if Nat.eqb k' k then (k, v) :: d' else (k', v') :: dict_set d' k v
  end.

(** [d.update(d')] *)
Definition dict_update (d d' : list (domain * nat)) : list (domain * nat) :=
  fold_left (fun acc kv => dict_set acc (fst kv) (snd kv)) d' d.

(** [s.add(x)] and [s.update(s')] *)
Definition set_add (s : list nat) (x : nat) : list nat :=
  if existsb (Nat.eqb x) s then s else s ++ [x].

Definition set_update (s s' : list nat) : list nat := fold_left set_add s' s.

(** Assignments to the attributes of the object at address [i]. *)
Definition with_restrictions (g : list (domain * nat) -> list (domain * nat))
    (f : LocalFrame) : LocalFrame :=
  mkLocalFrame (_domain f) (_symbol f) (_subframes f) (_superframes f)
               (g (_restrictions f)).

Definition with_subframes (g : list nat -> list nat) (f : LocalFrame) : LocalFrame :=
  mkLocalFrame (_domain f) (_symbol f) (g (_subframes f)) (_superframes f)
               (_restrictions f).

Definition with_superframes (g : list nat -> list nat) (f : LocalFrame) : LocalFrame :=
  mkLocalFrame (_domain f) (_symbol f) (_subframes f) (g (_superframes f))
               (_restrictions f).

(** [i._restrictions[k] = v] *)
Definition set_restriction (i : nat) (k : domain) (v : nat) (h : store) : store :=
  alter (with_restrictions (fun d => dict_set d k v)) i h.

(** [i._restrictions.update(d)] *)
Definition update_restrictions (i : nat) (d : list (domain * nat)) (h : store) : store :=
  alter (with_restrictions (fun d0 => dict_update d0 d)) i h.

(** [i._subframes.add(x)] and [i._subframes.update(s)] *)
Definition add_subframe (i x : nat) (h : store) : store :=
  alter (with_subframes (fun s => set_add s x)) i h.

Definition update_subframes (i : nat) (s : list nat) (h : store) : store :=
  alter (with_subframes (fun s0 => set_update s0 s)) i h.

(** [i._superframes.update(s)] *)
Definition update_superframes (i : nat) (s : list nat) (h : store) : store :=
  alter (with_superframes (fun s0 => set_update s0 s)) i h.

(** The address of the first frame on domain [d] with naming [sym]. *)
Fixpoint find_frame (h : store) (d : domain) (sym : string) (i : nat) : option nat :=
  match h with
  | [] => None
  | f :: h' =>
      if Nat.eqb (_domain f) d && String.eqb (_symbol f) sym then Some i
      else find_frame h' d sym (S i)
  end.

(** [LocalFrame(resmodule, symbol, ...)] where [resmodule] is the section
    module over [d].  The class is a unique representation
    ([__classcall_private__]): a frame that was built with the same
    arguments is handed out again as it is; otherwise a new object is
    made and [__init__] runs, which makes the frame its own subframe and
    superframe with no restrictions. *)
Definition LocalFrame_call (h : store) (d : domain) (sym : string) : nat * store :=
  match find_frame h d sym 0 with
  | Some i => (i, h)
  | None =>
      (length h, h ++ [mkLocalFrame d sym [length h] [length h] []])
  end.

(** [return self._restrictions[subdomain]] *)
Definition return_restriction (self : nat) (subdomain : domain) (h : store)
    : result (nat * store) :=
  match dict_get (_restrictions (frame_at h self)) subdomain with
  | Some r => Return (r, h)
  | None => Raise (KeyError "subdomain")
  end.

(** The body shared by the two places where a restriction [res] that
    exists already is taken over:
    [self._restrictions[subdomain] = res];
    [res._superframes.update(self._superframes)];
    [for sframe2 in self._superframes: sframe2._subframes.add(res)];
    [return self._restrictions[subdomain]]. *)
Definition take_over (self : nat) (subdomain : domain) (res : nat) (h : store)
    : result (nat * store) :=
  let h1 := set_restriction self subdomain res h in
  let h2 := update_superframes res (_superframes (frame_at h1 self)) h1 in
  let h3 := fold_left (fun h' sframe2 => add_subframe sframe2 res h')
                      (_superframes (frame_at h2 self)) h2 in
  return_restriction self subdomain h3.

Section Restrict.

(** [a.is_subset(b)] on open subsets. *)
Variable is_subset : domain -> domain -> bool.

(** The body of the last loop of [restrict], for one item of
    [self._restrictions]. *)
Definition link_smaller (subdomain : domain) (res : nat) (h : store)
    (item : domain * nat) : store :=
  let '(dom, rst) := item in
  if is_subset dom subdomain then
    let h1 := update_restrictions res (_restrictions (frame_at h rst)) h in
    let h2 := update_subframes res (_subframes (frame_at h1 rst)) h1 in
    update_superframes rst (_superframes (frame_at h2 res)) h2
  else h.

(** The restriction is created from scratch. *)
Definition from_scratch (self : nat) (subdomain : domain) (h : store)
    : result (nat * store) :=
  let '(res, h0) := LocalFrame_call h subdomain (_symbol (frame_at h self)) in
  let h1 := update_superframes res (_superframes (frame_at h0 self)) h0 in
  let h2 := fold_left (fun h' sframe =>
                         set_restriction sframe subdomain res
                           (add_subframe sframe res h'))
                      (_superframes (frame_at h1 self)) h1 in
  let h3 := fold_left (link_smaller subdomain res)
                      (_restrictions (frame_at h2 self)) h2 in
  return_restriction self subdomain h3.

(** The conditions of the three searches of [restrict]. *)
Definition tighter_hit (h : store) (subdomain : domain) (item : domain * nat) : bool :=
  is_subset subdomain (fst item) &&
  dict_mem (_restrictions (frame_at h (snd item))) subdomain.

Definition tighter (subdomain : domain) (item : domain * nat) : bool :=
  is_subset subdomain (fst item).

Definition larger_hit (h : store) (subdomain : domain) (sframe : nat) : bool :=
  dict_mem (_restrictions (frame_at h sframe)) subdomain.

Definition not_a_subdomain : string :=
  "the provided domain is not a subdomain of the current frame's domain".

(** [LocalFrame.restrict].  The method calls itself on a restriction to
    a tighter domain; [fuel] bounds the depth of these calls, and [None]
    means that the bound was reached. *)
Fixpoint restrict (fuel : nat) (self : nat) (subdomain : domain) (h : store)
    : option (result (nat * store)) :=
  let f := frame_at h self in
  if Nat.eqb subdomain (_domain f) then Some (Return (self, h))
  else if dict_mem (_restrictions f) subdomain then
    Some (return_restriction self subdomain h)
  else if negb (is_subset subdomain (_domain f)) then
    Some (Raise (ValueError not_a_subdomain))
  else
    match find (tighter_hit h subdomain) (_restrictions f) with
    | Some (_, rst) =>
        match dict_get (_restrictions (frame_at h rst)) subdomain with
        | Some res => Some (take_over self subdomain res h)
        | None => Some (Raise (KeyError "subdomain"))
        end
    | None =>
        match find (tighter subdomain) (_restrictions f) with
        | Some (_, rst) =>
            match fuel with
            | O => None
            | S fuel' =>
                match restrict fuel' rst subdomain h with
                | Some (Return (r, h1)) =>
                    Some (return_restriction self subdomain
                            (set_restriction self subdomain r h1))
                | other => other
                end
            end
        | None =>
            match find (larger_hit h subdomain) (_superframes f) with
            | Some sframe =>
                match dict_get (_restrictions (frame_at h sframe)) subdomain with
                | Some res => Some (take_over self subdomain res h)
                | None => Some (Raise (KeyError "subdomain"))
                end
            | None => Some (from_scratch self subdomain h)
            end
        end
    end.

(** What the theorems on [restrict] ask of a store: every frame is among
    its own superframes, the superframes are objects of the store, and an
    item [(dom, rst)] of a frame's [_restrictions] leads to an object of
    the store that is a frame on [dom] and has a smaller [rank]. *)
Definition frame_ok (rank : nat -> nat) (h : store) (i : nat) (f : LocalFrame) : bool :=
  existsb (Nat.eqb i) (_superframes f) &&
  forallb (fun s => Nat.ltb s (length h)) (_superframes f) &&
  forallb (fun item =>
             Nat.ltb (snd item) (length h) &&
             Nat.eqb (_domain (frame_at h (snd item))) (fst item) &&
             Nat.ltb (rank (snd item)) (rank i))
          (_restrictions f).

Definition store_ok (rank : nat -> nat) (h : store) : bool :=
  forallb (fun i => frame_ok rank h i (frame_at h i)) (seq 0 (length h)).

End Restrict.

(** [extends h h']: the store [h'] still holds every object of [h],
    on the domain it had. *)
Definition extends (h h' : store) : Prop :=
  length h <= length h' /\
  forall i, i < length h -> _domain (frame_at h' i) = _domain (frame_at h i).

(** [same_restrictions h h']: the two stores hold the same objects with
    the same domains and the same [_restrictions]. *)
Definition same_restrictions (h h' : store) : Prop :=
  length h' = length h /\
  forall i, _domain (frame_at h' i) = _domain (frame_at h i) /\
            _restrictions (frame_at h' i) = _restrictions (frame_at h i).


(** *** A chain of four open subsets

    [M] (3) contains [U] (2), which contains [V] (1), which contains [Y]
    (0); the store starts with one frame [e] on [M]. *)
Definition chain_is_subset (a b : domain) : bool := Nat.leb a b.

Definition store0 : store := [mkLocalFrame 3 "e" [0%nat] [0%nat] []].

(** The store after [e.restrict(Y)], [e.restrict(V)] and [e.restrict(U)],
    which create the frames 1, 2 and 3. *)
Definition run (c : option (result (nat * store))) : store :=
  match c with Some (Return (_, h)) => h | _ => [] end.

Definition store1 : store := run (restrict chain_is_subset 1 0 0 store0).
Definition store2 : store := run (restrict chain_is_subset 1 0 1 store1).
Definition store3 : store := run (restrict chain_is_subset 1 0 2 store2).


End Frames.

(** ** Morphisms of toric varieties ([morphism.py]) *)

Module Toric.
Import Py.

(** *** Lattices, cones and fans *)

(** A lattice point, and a matrix as the list of its rows. *)
Definition vector : Type := list Z.
Definition matrix : Type := list vector.

(** A cone: its primitive ray generators and, for a cone of a fan, the
    indices of its rays among the rays of the fan. *)
Record Cone : Type := mkCone {
  cone_rays : list vector;
  ambient_ray_indices : list nat
}.

(** A fan: its rays and its generating cones, each the tuple of the
    indices of its rays. *)
Record Fan : Type := mkFan {
  fan_rays : list vector;
  fan_cones : list (list nat)
}.

(** A fan morphism: an integer matrix and two fans. *)
Record FanMorphism : Type := mkFanMorphism {
  fm_matrix : matrix;
  domain_fan : Fan;
  codomain_fan : Fan
}.

#[export] Instance Cone_eq_dec : EqDecision Cone.
Proof. solve_decision. Defined.
#[export] Instance Fan_eq_dec : EqDecision Fan.
Proof. solve_decision. Defined.
#[export] Instance FanMorphism_eq_dec : EqDecision FanMorphism.
Proof. solve_decision. Defined.

(** [fan.nrays()] *)
Definition nrays (F : Fan) : nat := length (fan_rays F).

(** [fan(1)]: the one-dimensional cones, in the order of the rays. *)
Definition cones1 (F : Fan) : list Cone :=
  imap (fun j r => mkCone [r] [j]) (fan_rays F).

(** [cone.is_trivial()]: the cone has no ray. *)
Definition is_trivial (c : Cone) : bool :=
  match cone_rays c with [] => true | _ :: _ => false end.

(** [cone.ray(n)] *)
Definition Cone_ray (c : Cone) (n : nat) : result vector :=
  match cone_rays c !! n with
  | Some r => Return r
  | None => Raise (IndexError "ray index out of range")
  end.

(** [v * M] *)
Definition dot (v w : vector) : Z :=
  fold_right Z.add 0 (zip_with Z.mul v w).

Fixpoint columns (n : nat) (M : matrix) : list vector :=
  match n with
  | O => []
  | S n' => map (fun r => default 0 (head r)) M :: columns n' (map (drop 1) M)
  end.

Definition vector_times_matrix (v : vector) (M : matrix) : vector :=
  map (dot v) (columns (length (default [] (head M))) M).

(** [phi(v)]: the image of a lattice point. *)
Definition FanMorphism_apply (phi : FanMorphism) (v : vector) : vector :=
  vector_times_matrix v (fm_matrix phi).

(** *** Comparison

    Modelled from the spec: the comparison of fans, fan morphisms and
    toric varieties is defined with those classes, outside these files;
    "equality is structural (same matrix, same fans)".  Varieties are
    taken over one base field with the default coordinate names, so that
    two varieties compare as their fans do. *)
Definition cmp_nat (a b : nat) : Z := cmp_Z (Z.of_nat a) (Z.of_nat b).

(** The comparison of two sequences whose items compare as [cs] says:
    the first pair that is not equal decides. *)
Fixpoint first_nonzero (cs : list Z) : Z :=
  match cs with
  | [] => 0
  | c :: cs' => if Z.eqb c 0 then first_nonzero cs' else c
  end.

Definition cmp_Fan (F G : Fan) : Z :=
  first_nonzero [cmp_list (cmp_list cmp_Z) (fan_rays F) (fan_rays G);
                 cmp_list (cmp_list cmp_nat) (fan_cones F) (fan_cones G)].

Definition cmp_FanMorphism (f g : FanMorphism) : Z :=
  first_nonzero [cmp_Fan (domain_fan f) (domain_fan g);
                 cmp_Fan (codomain_fan f) (codomain_fan g);
                 cmp_list (cmp_list cmp_Z) (fm_matrix f) (fm_matrix g)].

(** [F != G] *)
Definition Fan_ne (F G : Fan) : bool := negb (Z.eqb (cmp_Fan F G) 0).

(** *** Toric varieties and their morphisms *)

(** A toric variety: its fan and, for a variety that was built as a
    fiber, the attribute [_embedding_morphism].  An embedding is either
    the toric morphism of a generic fiber or the embedding of a fiber
    component ([SchemeMorphism_fan_fiber_toric_variety], with its
    [_fan_morphism], [_defining_cone], [_base_cone] and
    [_ray_index_map]). *)
Inductive ToricVariety : Type :=
| mkToricVariety (fan : Fan) (_embedding_morphism : option Embedding)
with Embedding : Type :=
| Embedding_fan (codomain : ToricVariety) (fm : FanMorphism)
| Embedding_fiber (codomain : ToricVariety) (fm : FanMorphism)
    (_defining_cone _base_cone : Cone) (_ray_index_map : list (vector * nat)).

(** [X.fan()] *)
Definition fan (X : ToricVariety) : Fan :=
  match X with mkToricVariety F _ => F end.

Definition embedding_morphism (X : ToricVariety) : option Embedding :=
  match X with mkToricVariety _ e => e end.

(** [ToricVariety(fan)] *)
Definition ToricVariety_of_fan (F : Fan) : ToricVariety := mkToricVariety F None.

Definition cmp_ToricVariety (X Y : ToricVariety) : Z := cmp_Fan (fan X) (fan Y).

(** A Hom-set of toric varieties. *)
Record Homset : Type := Hom {
  hom_domain : ToricVariety;
  hom_codomain : ToricVariety
}.

(** An object of the class [SchemeMorphism_fan_toric_variety]. *)
Record SchemeMorphism_fan_toric_variety : Type := mkFanToric {
  parent : Homset;
  _fan_morphism : FanMorphism
}.

Definition domain (f : SchemeMorphism_fan_toric_variety) : ToricVariety :=
  hom_domain (parent f).
Definition codomain (f : SchemeMorphism_fan_toric_variety) : ToricVariety :=
  hom_codomain (parent f).

(** [SchemeMorphism_fan_toric_variety.__init__] *)
Definition SchemeMorphism_fan_toric_variety__init__
    (parent : Homset) (fan_morphism : FanMorphism) (check : bool)
    : result SchemeMorphism_fan_toric_variety :=
  if check && Fan_ne (fan (hom_domain parent)) (domain_fan fan_morphism) then
    Raise (ValueError "The fan morphism domain must be the fan of the domain.")
  else if check && Fan_ne (fan (hom_codomain parent)) (codomain_fan fan_morphism) then
    Raise (ValueError "The fan morphism codomain must be the fan of the codomain.")
  else Return (mkFanToric parent fan_morphism).

(** [SchemeMorphism_fan_toric_variety.fan_morphism] *)
Definition fan_morphism (self : SchemeMorphism_fan_toric_variety) : FanMorphism :=
  _fan_morphism self.


(** *** Python values and classes, for [__cmp__] *)

(** The class of a value; classes are compared by their address. *)
Inductive pyclass : Type :=
| Class_fan_toric_variety
| Class_int
| Class_other (n : nat).

Definition class_address (c : pyclass) : Z :=
  match c with
  | Class_fan_toric_variety => 0
  | Class_int => 1
  | Class_other n => 2 + Z.of_nat n
  end.

(** The values [__cmp__] may meet on its right: a morphism defined by a
    fan morphism, an integer, or an instance of some other class. *)
Inductive pyobject : Type :=
| Obj_fan_toric (f : SchemeMorphism_fan_toric_variety)
| Obj_int (z : Z)
| Obj_other (n : nat).

(** [type(x)] *)
Definition type_of (x : pyobject) : pyclass :=
  match x with
  | Obj_fan_toric _ => Class_fan_toric_variety
  | Obj_int _ => Class_int
  | Obj_other n => Class_other n
  end.

(** [SchemeMorphism_fan_toric_variety.__cmp__] *)
Definition __cmp__ (self : SchemeMorphism_fan_toric_variety) (right : pyobject) : Z :=
  match right with
  | Obj_fan_toric r =>
      first_nonzero [cmp_ToricVariety (domain self) (domain r);
                     cmp_ToricVariety (codomain self) (codomain r);
                     cmp_FanMorphism (fan_morphism self) (fan_morphism r)]
  | _ => cmp_Z (class_address Class_fan_toric_variety)
               (class_address (type_of right))
  end.

(** *** The geometry library

    The operations on cones, fans, lattices and fan morphisms that
    [morphism.py] calls; their code is outside these files. *)
Class Geometry : Type := {
  (** [fm.image_cone(cone)] *)
  image_cone : FanMorphism -> Cone -> Cone;
  (** [fm.factor()], as the triple [(phi_i, phi_b, phi_s)] *)
  FanMorphism_factor : FanMorphism -> FanMorphism * FanMorphism * FanMorphism;
  (** [f * g] on fan morphisms *)
  FanMorphism_mul : FanMorphism -> FanMorphism -> FanMorphism;
  FanMorphism_is_bundle : FanMorphism -> bool;
  FanMorphism_is_fibration : FanMorphism -> bool;
  FanMorphism_is_injective : FanMorphism -> bool;
  FanMorphism_is_surjective : FanMorphism -> bool;
  FanMorphism_is_birational : FanMorphism -> bool;
  (** [fm.primitive_preimage_cones(cone)] *)
  primitive_preimage_cones : FanMorphism -> Cone -> list Cone;
  (** [fm.relative_star_generators(cone)] *)
  relative_star_generators : FanMorphism -> Cone -> list Cone;
  (** [fm.kernel_fan()], and the echelonized basis matrix of its lattice
      [K] with the coordinates [K.echelon_coordinates(r)] *)
  kernel_fan : FanMorphism -> Fan;
  echelonized_basis_matrix : FanMorphism -> matrix;
  echelon_coordinates : FanMorphism -> vector -> vector;
  (** [M.solve_left(v)], a vector of rationals; the systems solved here
      have a solution, since the image of a ray lies in its image cone *)
  solve_left : matrix -> vector -> list Q;
  (** [Cone(rays)] and [Fan(cones)] *)
  Cone_of_rays : list vector -> Cone;
  Fan_of_cones : list Cone -> Fan;
  (** [fan.contains(cone)] and [fan.embed(cone)] *)
  Fan_contains : Fan -> Cone -> bool;
  Fan_embed : Fan -> Cone -> Cone;
  (** The projection of [_make_fiber]: the coordinates of a ray in the
      saturated lattice [L] spanned by the kernel and the preimages of the
      rays of the base cone, taken to the quotient of [L] by the
      sublattice of the defining cone. *)
  fiber_projection : FanMorphism -> Cone -> Cone -> vector -> vector
}.

(** The coordinate ring of the domain, with what [as_polynomial_map]
    uses of it. *)
Class CoordinateRing (R : Type) : Type := {
  (** [R.one()] *)
  one : R;
  (** [R.gens()[i]] *)
  gen : nat -> R;
  (** [p * q] and [p ** d] *)
  mul : R -> R -> R;
  pow : R -> Z -> R;
  (** [X.ambient_space().is_homogeneous(p)] *)
  is_homogeneous : ToricVariety -> R -> bool;
  (** [str(p)] *)
  repr : R -> string
}.

(** *** Morphisms given by homogeneous polynomials *)

(** An object of the class [SchemeMorphism_polynomial_toric_variety]. *)
Record SchemeMorphism_polynomial_toric_variety (R : Type) : Type := mkPolyToric {
  poly_parent : Homset;
  _polys : list R
}.
Arguments mkPolyToric {R} _ _.
Arguments poly_parent {R} _.
Arguments _polys {R} _.

Section Polynomial.
Context {R : Type} `{CoordinateRing R}.

(** The loop of [SchemeMorphism_polynomial_toric_variety.__init__]. *)
Fixpoint check_homogeneous (X : ToricVariety) (ps : list R) : result unit :=
  match ps with
  | [] => Return tt
  | p :: ps' =>
      if is_homogeneous X p then check_homogeneous X ps'
      else Raise (ValueError (repr p +:+ " is not homogeneous!"))
  end.

(** [SchemeMorphism_polynomial_toric_variety.__init__]: the initialiser
    of the base class records the polynomials; with [check] every
    polynomial has to be homogeneous. *)
Definition SchemeMorphism_polynomial_toric_variety__init__
    (parent : Homset) (polynomials : list R) (check : bool)
    : result (SchemeMorphism_polynomial_toric_variety R) :=
  let self := mkPolyToric parent polynomials in
  if check then
    _ ← check_homogeneous (hom_domain (poly_parent self)) (_polys self);
    Return self
  else Return self.

(** [SchemeMorphism_polynomial_toric_variety.as_fan_morphism] *)
Definition as_fan_morphism (self : SchemeMorphism_polynomial_toric_variety R)
    : result SchemeMorphism_fan_toric_variety :=
  Raise (NotImplementedError
           "expressing toric morphisms as fan morphisms is not implemented yet!").

End Polynomial.

(** [ZZ(d)] for a rational [d]: the integer [d] is, or [TypeError]. *)
Definition ZZ_of_Q (d : Q) : option Z :=
  if Z.eqb (Z.modulo (Qnum d) (Z.pos (Qden d))) 0
  then Some (Z.div (Qnum d) (Z.pos (Qden d)))
  else None.


Definition no_homogeneous_polynomials : string :=
  "The fan morphism cannot be written in homogeneous polynomials.".

Section FanToric.
Context `{Geometry}.

(** [is_bundle], [is_fibration], [is_injective], [is_surjective] *)
Definition is_bundle (self : SchemeMorphism_fan_toric_variety) : bool :=
  FanMorphism_is_bundle (fan_morphism self).
Definition is_fibration (self : SchemeMorphism_fan_toric_variety) : bool :=
  FanMorphism_is_fibration (fan_morphism self).





Section AsPolynomialMap.
Context {R : Type} `{CoordinateRing R}.

(** The inner loop of [as_polynomial_map]:
    [for i, d in zip(sigma.ambient_ray_indices(), degrees)]. *)
Fixpoint multiply_in (x : R) (ids : list (nat * Q)) (polys : list R)
    : result (list R) :=
  match ids with
  | [] => Return polys
  | (i, d) :: ids' =>
      match ZZ_of_Q d with
      | None => Raise (TypeError no_homogeneous_polynomials)
      | Some z =>
          match polys !! i with
          | None => Raise (IndexError "list index out of range")
          | Some p => multiply_in x ids' (<[i := mul p (pow x z)]> polys)
          end
      end
  end.

(** The exponents that the ray [rho] contributes: the indices of the
    rays of its image cone, each with the coefficient of that ray in the
    image of the generator of [rho]. *)
Definition degrees_of (phi : FanMorphism) (rho : Cone) : result (list (nat * Q)) :=
  ray ← Cone_ray rho 0;
  let sigma := image_cone phi rho in
  let degrees := solve_left (cone_rays sigma) (FanMorphism_apply phi ray) in
  Return (combine (ambient_ray_indices sigma) degrees).

(** The outer loop: [for rho, x in zip(phi.domain_fan(1), R.gens())]. *)
Fixpoint multiply_rays (phi : FanMorphism) (pairs : list (Cone * R))
    (polys : list R) : result (list R) :=
  match pairs with
  | [] => Return polys
  | (rho, x) :: pairs' =>
      ids ← degrees_of phi rho;
      polys' ← multiply_in x ids polys;
      multiply_rays phi pairs' polys'
  end.

(** [R.gens()]: one generator for every ray of the fan of the domain. *)
Definition gens (X : ToricVariety) : list R :=
  map gen (seq 0 (nrays (fan X))).

Definition rays_and_gens (self : SchemeMorphism_fan_toric_variety) : list (Cone * R) :=
  combine (cones1 (domain_fan (fan_morphism self))) (gens (domain self)).

(** [SchemeMorphism_fan_toric_variety.as_polynomial_map] *)
Definition as_polynomial_map (self : SchemeMorphism_fan_toric_variety)
    : result (SchemeMorphism_polynomial_toric_variety R) :=
  let phi := fan_morphism self in
  let polys := replicate (nrays (codomain_fan phi)) one in
  polys' ← multiply_rays phi (rays_and_gens self) polys;
  SchemeMorphism_polynomial_toric_variety__init__ (parent self) polys' true.

End AsPolynomialMap.





(** *** Fibers *)

(** [list.index]: the position of the first occurrence. *)
Fixpoint index_of (r : vector) (rays : list vector) : result nat :=
  match rays with
  | [] => Raise (ValueError "not in list")
  | r' :: rays' =>
      if decide (r' = r) then Return 0%nat
      else i ← index_of r rays'; Return (S i)
  end.

Fixpoint indices_of (rs rays : list vector) : result (list nat) :=
  match rs with
  | [] => Return []
  | r :: rs' => i ← index_of r rays; l ← indices_of rs' rays; Return (i :: l)
  end.

Fixpoint cones_of_fan (cs : list (list vector)) (rays : list vector)
    : result (list (list nat)) :=
  match cs with
  | [] => Return []
  | c :: cs' =>
      l ← indices_of c rays; ls ← cones_of_fan cs' rays; Return (l :: ls)
  end.

(** The rays of a generating cone, [c.rays()]. *)
Definition rays_of (F : Fan) (c : list nat) : list vector :=
  omap (fun i => fan_rays F !! i) c.

(** [SchemeMorphism_fan_toric_variety.fiber] *)
Definition fiber (self : SchemeMorphism_fan_toric_variety) : result ToricVariety :=
  let fm := fan_morphism self in
  let ker_fan := kernel_fan fm in
  let rays := map (echelon_coordinates fm) (fan_rays ker_fan) in
  cones ← cones_of_fan (map (rays_of ker_fan) (fan_cones ker_fan)) (fan_rays ker_fan);
  let fiber_fan := mkFan rays cones in
  let fiber := ToricVariety_of_fan fiber_fan in
  let fan_embedding :=
    mkFanMorphism (echelonized_basis_matrix fm) fiber_fan (fan (domain self)) in
  let homset := Hom fiber (domain self) in
  embedding ← SchemeMorphism_fan_toric_variety__init__ homset fan_embedding true;
  Return (mkToricVariety (fan (domain embedding))
            (Some (Embedding_fan (codomain embedding) (fan_morphism embedding)))).

Definition is_zero (v : vector) : bool := forallb (Z.eqb 0) v.

(** [d[k] = v] on a dictionary keyed by lattice points. *)
Fixpoint ray_index_set (d : list (vector * nat)) (k : vector) (v : nat)
    : list (vector * nat) :=
  match d with
  | [] => [(k, v)]
  | (k', v') :: d' =>
      if decide (k' = k) then (k, v) :: d' else (k', v') :: ray_index_set d' k v
  end.

(** The last loop of [_make_fiber]: [for ray in star_rays]. *)
Fixpoint make_ray_index_map (F : Fan) (projection : vector -> vector)
    (star_rays : list vector) (m : list (vector * nat))
    : result (list (vector * nat)) :=
  match star_rays with
  | [] => Return m
  | ray :: rest =>
      ray_index ← index_of ray (fan_rays F);
      let projected_ray := projection ray in
      if is_zero projected_ray then make_ray_index_map F projection rest m
      else make_ray_index_map F projection rest
             (ray_index_set m projected_ray ray_index)
  end.

(** [SchemeMorphism_fan_fiber_toric_variety._make_fiber]: the fan of the
    fiber and the [_ray_index_map]. *)
Definition _make_fiber (fm : FanMorphism) (defining_cone base_cone : Cone)
    : result (Fan * list (vector * nat)) :=
  let projection := fiber_projection fm defining_cone base_cone in
  let star := relative_star_generators fm defining_cone in
  let star_rays := remove_dups (concat (map cone_rays star)) in
  let cones := map (fun cone => Cone_of_rays (map projection (cone_rays cone))) star in
  let fiber_fan := Fan_of_cones cones in
  ray_index_map ← make_ray_index_map (domain_fan fm) projection star_rays [];
  Return (fiber_fan, ray_index_map).

(** [SchemeMorphism_fan_fiber_toric_variety.__init__], followed by
    [.domain()]: the fiber component, which carries the embedding as its
    [_embedding_morphism]. *)
Definition SchemeMorphism_fan_fiber_toric_variety
    (toric_variety : ToricVariety) (fan_morphism : FanMorphism)
    (defining_cone : Cone) (check : bool) : result ToricVariety :=
  if check && Fan_ne (fan toric_variety) (domain_fan fan_morphism) then
    Raise (ValueError "The total space toric variety must be the fan morphism codomain.")
  else
    let dc := Fan_embed (domain_fan fan_morphism) defining_cone in
    let bc := image_cone fan_morphism defining_cone in
    fr ← _make_fiber fan_morphism dc bc;
    Return (mkToricVariety (fst fr)
              (Some (Embedding_fiber toric_variety fan_morphism dc bc (snd fr)))).

(** [SchemeMorphism_fan_toric_variety.fiber_component] *)
Definition fiber_component (self : SchemeMorphism_fan_toric_variety)
    (domain_cone : Cone) : result ToricVariety :=
  if is_trivial domain_cone then fiber self
  else SchemeMorphism_fan_fiber_toric_variety (domain self) (fan_morphism self)
         domain_cone true.

(** *** The fiber graph *)

(** A simple undirected graph on the vertices [0 .. n-1], with an
    object attached to some vertices. *)
Record Graph : Type := mkGraph {
  vertices : list nat;
  edges : list (nat * nat);
  vertex_objects : list (nat * ToricVariety)
}.

(** [Graph(m, loops=False, multiedges=False)] for an adjacency matrix
    [m]: a vertex for every row, and an edge for every entry above the
    diagonal that is not zero. *)
Definition Graph_of_matrix (m : list (list Z)) : Graph :=
  mkGraph (seq 0 (length m))
          (concat (imap (fun i row =>
                     omap (fun j => if Nat.ltb i j &&
                                       negb (Z.eqb (default 0 (row !! j)) 0)
                                    then Some (i, j) else None)
                          (seq 0 (length row))) m))
          [].

(** [graph.set_vertex(i, X)] and [graph.get_vertex(i)] *)
Definition set_vertex (g : Graph) (i : nat) (X : ToricVariety) : Graph :=
  mkGraph (vertices g) (edges g) ((i, X) :: vertex_objects g).




(** The local function [is_union_in_fan] of [fiber_graph]. *)
Definition is_union_in_fan (fm : FanMorphism) (c0 c1 : Cone) : bool :=
  let c := Cone_of_rays (cone_rays c0 ++ cone_rays c1) in
  Fan_contains (domain_fan fm) c.

(** [matrix(ZZ, n, n, lambda i, j: is_union_in_fan(self, prim[i], prim[j]))]
    followed by [m[i,i] = 0] for every [i]. *)
Definition adjacency (fm : FanMorphism) (prim : list Cone) : list (list Z) :=
  imap (fun i row => <[i := 0]> row)
       (map (fun ci => map (fun cj => Z.b2z (is_union_in_fan fm ci cj)) prim) prim).

(** The last loop of [fiber_graph]. *)
Fixpoint set_vertices (self : SchemeMorphism_fan_toric_variety)
    (ics : list (nat * Cone)) (graph : Graph) : result Graph :=
  match ics with
  | [] => Return graph
  | (i, c) :: ics' =>
      X ← fiber_component self c;
      set_vertices self ics' (set_vertex graph i X)
  end.

(** [SchemeMorphism_fan_toric_variety.fiber_graph] *)
Definition fiber_graph (self : SchemeMorphism_fan_toric_variety)
    (codomain_cone : Cone) : result Graph :=
  let fm := fan_morphism self in
  let prim := primitive_preimage_cones fm codomain_cone in
  let m := adjacency fm prim in
  let graph := Graph_of_matrix m in
  set_vertices self (imap (fun i c => (i, c)) prim) graph.


End FanToric.

(** *** A small geometry, for the examples

    An implementation of the operations of [Geometry] that is enough for
    the examples of the module documentation: fans of simplicial cones
    with at most two rays, and fan morphisms with trivial kernel. *)

Module Small.

Definition mkQ (n d : Z) : Q :=
  if Z.ltb 0 d then Qred (Qmake n (Z.to_pos d))
  else Qred (Qmake (- n) (Z.to_pos (- d))).

Definition coord (v : vector) (j : nat) : Z := default 0 (v !! j).

(** The first column [j] with [r_j <> 0]. *)
Definition pivot1 (r : vector) : option nat :=
  find (fun j => negb (Z.eqb (coord r j) 0)) (seq 0 (length r)).

Definition det2 (r1 r2 : vector) (ab : nat * nat) : Z :=
  coord r1 (fst ab) * coord r2 (snd ab) - coord r1 (snd ab) * coord r2 (fst ab).

(** The first pair of columns on which [r1] and [r2] are independent. *)
Definition pivot2 (r1 r2 : vector) : option (nat * nat) :=
  find (fun ab => negb (Z.eqb (det2 r1 r2 ab) 0))
       (flat_map (fun a => map (fun b => (a, b)) (seq 0 (length r1)))
                 (seq 0 (length r1))).

(** The solution [x] of [x * M = v] for a matrix [M] of at most two
    independent rows, if there is one. *)
Definition solve (M : matrix) (v : vector) : option (list Q) :=
  match M with
  | [] => if forallb (Z.eqb 0) v then Some [] else None
  | [r] =>
      match pivot1 r with
      | Some j =>
          if forallb (fun i => Z.eqb (coord v j * coord r i) (coord v i * coord r j))
                     (seq 0 (length v))
          then Some [mkQ (coord v j) (coord r j)] else None
      | None => None
      end
  | [r1; r2] =>
      match pivot2 r1 r2 with
      | Some ab =>
          let d := det2 r1 r2 ab in
          let x := det2 v r2 ab in
          let y := det2 r1 v ab in
          if forallb (fun i => Z.eqb (x * coord r1 i + y * coord r2 i) (d * coord v i))
                     (seq 0 (length v))
          then Some [mkQ x d; mkQ y d] else None
      | None => None
      end
  | _ => None
  end.

Definition cone_contains (rays : list vector) (v : vector) : bool :=
  match solve rays v with
  | Some xs => forallb (fun x => Z.leb 0 (Qnum x)) xs
  | None => false
  end.

Fixpoint sublists (l : list nat) : list (list nat) :=
  match l with
  | [] => [[]]
  | x :: l' => sublists l' ++ map (cons x) (sublists l')
  end.

(** The cone of a fan on the rays with the given indices. *)
Definition cone_of_indices (F : Fan) (c : list nat) : Cone :=
  mkCone (rays_of F c) c.

(** The cones of a fan of simplicial cones, the smaller ones first. *)
Definition faces (F : Fan) : list Cone :=
  let all := remove_dups (flat_map sublists (fan_cones F)) in
  map (cone_of_indices F)
      (flat_map (fun k => filter (fun c => length c = k) all)
                (seq 0 (S (length (fan_rays F))))).

Definition subset_of (a b : list vector) : bool :=
  forallb (fun r => bool_decide (r ∈ b)) a.

Definition same_rays (c d : Cone) : bool :=
  subset_of (cone_rays c) (cone_rays d) && subset_of (cone_rays d) (cone_rays c).

Definition trivial_cone : Cone := mkCone [] [].

Definition small_image_cone (fm : FanMorphism) (c : Cone) : Cone :=
  default trivial_cone
    (find (fun f => forallb (fun r => cone_contains (cone_rays f)
                                         (FanMorphism_apply fm r))
                            (cone_rays c))
          (faces (codomain_fan fm))).

Definition small_contains (F : Fan) (c : Cone) : bool :=
  existsb (same_rays c) (faces F).

Definition small_embed (F : Fan) (c : Cone) : Cone :=
  default c (find (same_rays c) (faces F)).

Definition proper_face (c d : Cone) : bool :=
  subset_of (cone_rays c) (cone_rays d) && negb (subset_of (cone_rays d) (cone_rays c)).

(** The cones of the domain fan whose image cone is [sigma] and none of
    whose proper faces has that image cone. *)
Definition small_primitive_preimage_cones (fm : FanMorphism) (sigma : Cone)
    : list Cone :=
  let over := filter (fun c => same_rays (small_image_cone fm c) sigma)
                     (faces (domain_fan fm)) in
  filter (fun c => negb (existsb (fun c' => proper_face c' c) over)) over.

(** The largest cones of the domain fan that contain [c] and have the
    image cone of [c]. *)
Definition small_relative_star_generators (fm : FanMorphism) (c : Cone)
    : list Cone :=
  let star := filter (fun d => subset_of (cone_rays c) (cone_rays d) &&
                               same_rays (small_image_cone fm d)
                                         (small_image_cone fm c))
                     (faces (domain_fan fm)) in
  filter (fun d => negb (existsb (fun d' => proper_face d d') star)) star.

Definition matrix_mul (A B : matrix) : matrix :=
  map (fun r => vector_times_matrix r B) A.

Definition identity_matrix (n : nat) : matrix :=
  map (fun i => map (fun j => if Nat.eqb i j then 1 else 0) (seq 0 n)) (seq 0 n).

Definition identity_morphism (F : Fan) : FanMorphism :=
  mkFanMorphism (identity_matrix (length (default [] (head (fan_rays F))))) F F.

(** Decided here for identity morphisms only. *)
Definition is_identity (fm : FanMorphism) : bool :=
  bool_decide (fm = identity_morphism (domain_fan fm)).

(** In a lattice of rank two, the quotient by the line of the single ray
    [(a, b)] of the defining cone: [(x, y)] goes to [x * b - y * a]. *)
Definition small_projection (fm : FanMorphism) (dc bc : Cone) (v : vector) : vector :=
  match cone_rays dc with
  | [r] => [coord v 0 * coord r 1 - coord v 1 * coord r 0]
  | _ => v
  end.

Definition small_Fan_of_cones (cs : list Cone) : Fan :=
  let rays := remove_dups (flat_map cone_rays cs) in
  mkFan rays
        (map (fun c => omap (fun r => fst <$> list_find (fun r' => r' = r) rays)
                            (cone_rays c)) cs).

#[export] Instance geometry : Geometry := {|
  image_cone := small_image_cone;
  FanMorphism_factor fm :=
    (identity_morphism (codomain_fan fm), identity_morphism (codomain_fan fm), fm);
  FanMorphism_mul f g :=
    mkFanMorphism (matrix_mul (fm_matrix g) (fm_matrix f)) (domain_fan g) (codomain_fan f);
  FanMorphism_is_bundle := is_identity;
  FanMorphism_is_fibration := is_identity;
  FanMorphism_is_injective := is_identity;
  FanMorphism_is_surjective := is_identity;
  FanMorphism_is_birational := is_identity;
  primitive_preimage_cones := small_primitive_preimage_cones;
  relative_star_generators := small_relative_star_generators;
  kernel_fan fm := mkFan [] [[]];
  echelonized_basis_matrix fm := [];
  echelon_coordinates fm v := v;
  solve_left M v := default [] (solve M v);
  Cone_of_rays rays := mkCone (remove_dups (filter (fun r => negb (is_zero r)) rays)) [];
  Fan_of_cones := small_Fan_of_cones;
  Fan_contains := small_contains;
  Fan_embed := small_embed;
  fiber_projection := small_projection
|}.

(** Monomials in the homogeneous coordinates, as their exponent vectors;
    every monomial is homogeneous. *)
Fixpoint monomial_mul (p q : list Z) : list Z :=
  match p, q with
  | [], _ => q
  | _, [] => p
  | a :: p', b :: q' => (a + b) :: monomial_mul p' q'
  end.

#[export] Instance monomials : CoordinateRing (list Z) := {|
  one := [];
  gen i := replicate i 0 ++ [1];
  mul := monomial_mul;
  pow p d := map (Z.mul d) p;
  is_homogeneous X p := true;
  repr p := "monomial"
|}.

(** The fans of the module documentation. *)
Definition A1 : Fan := mkFan [[1]] [[0%nat]].
Definition P1 : Fan := mkFan [[1]; [-1]] [[0%nat]; [1%nat]].
Definition P2 : Fan :=
  mkFan [[1; 0]; [0; 1]; [-1; -1]] [[0; 1]; [1; 2]; [0; 2]]%nat.
Definition A2_Z2 : Fan := mkFan [[1; 0]; [1; 2]] [[0; 1]]%nat.
(** A subdivision of [A2_Z2] by three rays. *)
Definition A2_Z2_subdivided : Fan :=
  mkFan [[1; 0]; [1; 2]; [3; 1]; [1; 1]; [2; 3]]
        [[0; 2]; [2; 3]; [3; 4]; [4; 1]]%nat.
Definition O2_P1 : Fan := mkFan [[1; 0]; [1; 2]; [1; 1]] [[0; 2]; [1; 2]]%nat.

(** [A1.hom(matrix([[1]]), P1)], [P1.hom(matrix([[1, 0]]), P2)] and the
    blowup [O2_P1.hom(identity_matrix(2), A2_Z2)]. *)
Definition patch : SchemeMorphism_fan_toric_variety :=
  mkFanToric (Hom (ToricVariety_of_fan A1) (ToricVariety_of_fan P1))
             (mkFanMorphism [[1]] A1 P1).
Definition line : SchemeMorphism_fan_toric_variety :=
  mkFanToric (Hom (ToricVariety_of_fan P1) (ToricVariety_of_fan P2))
             (mkFanMorphism [[1; 0]] P1 P2).
Definition blowup : SchemeMorphism_fan_toric_variety :=
  mkFanToric (Hom (ToricVariety_of_fan O2_P1) (ToricVariety_of_fan A2_Z2))
             (mkFanMorphism [[1; 0]; [0; 1]] O2_P1 A2_Z2).
Definition subdivision : SchemeMorphism_fan_toric_variety :=
  mkFanToric (Hom (ToricVariety_of_fan A2_Z2_subdivided) (ToricVariety_of_fan A2_Z2))
             (mkFanMorphism [[1; 0]; [0; 1]] A2_Z2_subdivided A2_Z2).

End Small.

End Toric.

(** ** Further definitions on local frames *)

Module FramesChecks.
Import Py Frames.
Local Open Scope nat_scope.

(** The guard of [restrict] that raises [ValueError]: [subdomain] is
    not the domain of [self], not a key of [self._restrictions], and not
    a subset of the domain. *)
Definition rejects (is_subset : domain -> domain -> bool)
    (h : store) (self : nat) (subdomain : domain) : bool :=
  let f := frame_at h self in
  negb (Nat.eqb subdomain (_domain f)) &&
  negb (dict_mem (_restrictions f) subdomain) &&
  negb (is_subset subdomain (_domain f)).

End FramesChecks.

(* ===================================================================== *)
(** * Part II: theorems                                                   *)
(* ===================================================================== *)

Module GameFacts.
Import Py Game.

Section Solver.
Variable profile : Type.
Variable solve : game -> list profile.
Variable is_package_installed : string -> bool.

Lemma obtain_Nash_LCP (g : game) :
  obtain_Nash profile solve is_package_installed g "LCP" =
  if Nat.ltb 2 (nplayers g)
  then Raise (NotImplementedError too_many_players)
  else Return (Some (solve g)).
Proof. reflexivity. Qed.

(** C6.  With the default algorithm ["LCP"], [obtain_Nash] raises
    [NotImplementedError] on a game with more than two players and
    otherwise returns exactly the list the external LCP solver computes
    for the game; with ["lrs"] it raises [NotImplementedError] when the
    package [lrs] is not installed. *)
Theorem obtain_Nash_spec (g : game) :
  ((2 < nplayers g)%nat ->
     obtain_Nash_default profile solve is_package_installed g =
     Raise (NotImplementedError too_many_players)) /\
  ((nplayers g <= 2)%nat ->
     obtain_Nash_default profile solve is_package_installed g =
     Return (Some (solve g))) /\
  (is_package_installed "lrs" = false ->
     obtain_Nash profile solve is_package_installed g "lrs" =
     Raise (NotImplementedError "lrs is not installed")).
Proof.
  unfold obtain_Nash_default. rewrite obtain_Nash_LCP.
  repeat split.
  - intros H. apply Nat.ltb_lt in H. now rewrite H.
  - intros H. apply Nat.ltb_ge in H. now rewrite H.
  - intros H. unfold obtain_Nash. simpl. now rewrite H.
Qed.

(** With ["lrs"] installed, and with ["support enumeration"], the body
    runs to its end and Python's [None] comes back. *)
Lemma obtain_Nash_lrs_installed (g : game) :
  is_package_installed "lrs" = true ->
  obtain_Nash profile solve is_package_installed g "lrs" = Return None.
Proof. intros H. unfold obtain_Nash. simpl. now rewrite H. Qed.

Lemma obtain_Nash_support_enumeration (g : game) :
  obtain_Nash profile solve is_package_installed g "support enumeration" =
  Return None.
Proof. reflexivity. Qed.
End Solver.

(** The prisoner's dilemma of the class documentation: two players. *)
Example obtain_Nash_two_players :
  obtain_Nash_default nat (fun _ => [7%nat]) (fun _ => false)
    (new_table [2%nat; 2%nat]) = Return (Some [7%nat]).
Proof. reflexivity. Qed.

Example obtain_Nash_three_players :
  obtain_Nash_default nat (fun _ => [7%nat]) (fun _ => false)
    (new_table [2%nat; 2%nat; 2%nat]) =
  Raise (NotImplementedError too_many_players).
Proof. reflexivity. Qed.

(** *** Construction from [matrix1] alone *)

Lemma __new___only_matrix1 (a : matrix) :
  __new__ (Given a) PyFalse PyFalse =
  if matrix_nonzero a
  then Raise (AttributeError "'bool' object has no attribute 'rows'")
  else Return (new_table []).
Proof.
  unfold __new__. simpl. rewrite andb_false_r.
  destruct (matrix_nonzero a); reflexivity.
Qed.

(** C9.  What the constructor does when only [matrix1] is passed:
    [__new__] asks the default [matrix2=False] for its rows, so for a
    matrix that is not zero the construction stops with [AttributeError]
    before [__init__] can negate [matrix1]; a zero matrix counts as
    false, and then an empty table is built on which neither [matrix1]
    nor [matrix2] is set. *)
Theorem NormalFormGame_only_matrix1 (a : matrix) :
  NormalFormGame (Given a) PyFalse PyFalse =
  if matrix_nonzero a
  then Raise (AttributeError "'bool' object has no attribute 'rows'")
  else Return (new_table []).
Proof.
  unfold NormalFormGame. rewrite __new___only_matrix1.
  destruct (matrix_nonzero a) eqn:E; [reflexivity|].
  cbn. unfold __init__. cbn. now rewrite E.
Qed.

(** The matrix of the class documentation. *)
Example NormalFormGame_only_matrix1_doc :
  NormalFormGame (Given [[1; 2]; [3; 4]]) PyFalse PyFalse =
  Raise (AttributeError "'bool' object has no attribute 'rows'").
Proof. reflexivity. Qed.

(** [__init__] itself does what the documentation promises: run on a
    table of the right shape it stores the negated matrix and fills a
    zero-sum table. *)
Example __init___negates_doc :
  exists g, __init__ (new_table [2%nat; 2%nat]) (Given [[1; 2]; [3; 4]]) PyFalse PyFalse
              = Return g /\
            matrix2 g = Some [[-1; -2]; [-3; -4]] /\
            forallb (fun k => Z.eqb (payoff g [fst k; snd k] 0 + payoff g [fst k; snd k] 1) 0)
                    (product 2 2) = true.
Proof. eexists. repeat split. Qed.

End GameFacts.

Module FramesFacts.
Import Py Frames.
Local Open Scope nat_scope.

(** *** Dictionaries and sets *)

Lemma dict_get_set_eq d k v : dict_get (dict_set d k v) k = Some v.
Proof.
  induction d as [|[k' v'] d IH]; simpl.
  - now rewrite Nat.eqb_refl.
  - destruct (Nat.eqb k' k) eqn:E; simpl.
    + now rewrite Nat.eqb_refl.
    + now rewrite E.
Qed.

Lemma dict_get_set_ne d k k' v :
  k <> k' -> dict_get (dict_set d k v) k' = dict_get d k'.
Proof.
  intros Hne. induction d as [|[k0 v0] d IH]; simpl.
  - apply Nat.eqb_neq in Hne. now rewrite Hne.
  - destruct (Nat.eqb k0 k) eqn:E; simpl.
    + apply Nat.eqb_eq in E. subst k0.
      apply Nat.eqb_neq in Hne. now rewrite Hne.
    + now rewrite IH.
Qed.

Lemma dict_mem_get d k : dict_mem d k = true -> exists v, dict_get d k = Some v.
Proof. unfold dict_mem. destruct (dict_get d k); [eauto|discriminate]. Qed.

(** *** Reading the store after an assignment *)

Lemma frame_at_alter (g : LocalFrame -> LocalFrame) (j i : nat) (h : store) :
  frame_at (alter g j h) i =
  if decide (i = j /\ j < length h) then g (frame_at h j) else frame_at h i.
Proof.
  unfold frame_at. case_decide as H.
  - destruct H as [-> H]. rewrite list_lookup_alter_eq.
    apply lookup_lt_is_Some in H as [x ->]. reflexivity.
  - destruct (decide (i = j)) as [->|Hne].
    + rewrite list_lookup_alter_eq.
      assert (Hge : length h <= j) by lia.
      apply lookup_ge_None in Hge. now rewrite Hge.
    + now rewrite list_lookup_alter_ne by congruence.
Qed.

Lemma frame_at_alter_ne g j i h : i <> j -> frame_at (alter g j h) i = frame_at h i.
Proof. intros H. rewrite frame_at_alter. case_decide; [tauto|reflexivity]. Qed.

Lemma frame_at_alter_eq g j h :
  j < length h -> frame_at (alter g j h) j = g (frame_at h j).
Proof. intros H. rewrite frame_at_alter. case_decide; [reflexivity|tauto]. Qed.

Lemma domain_alter g j i h :
  (forall f, _domain (g f) = _domain f) ->
  _domain (frame_at (alter g j h) i) = _domain (frame_at h i).
Proof.
  intros Hg. rewrite frame_at_alter. case_decide as H; [|reflexivity].
  destruct H as [-> _]. apply Hg.
Qed.

Lemma restrictions_alter g j i h :
  (forall f, _restrictions (g f) = _restrictions f) ->
  _restrictions (frame_at (alter g j h) i) = _restrictions (frame_at h i).
Proof.
  intros Hg. rewrite frame_at_alter. case_decide as H; [|reflexivity].
  destruct H as [-> _]. apply Hg.
Qed.

Lemma superframes_alter g j i h :
  (forall f, _superframes (g f) = _superframes f) ->
  _superframes (frame_at (alter g j h) i) = _superframes (frame_at h i).
Proof.
  intros Hg. rewrite frame_at_alter. case_decide as H; [|reflexivity].
  destruct H as [-> _]. apply Hg.
Qed.

(** *** The relations [extends] and [same_restrictions] *)

Lemma extends_refl h : extends h h.
Proof. split; [lia|reflexivity]. Qed.

Lemma extends_trans h1 h2 h3 : extends h1 h2 -> extends h2 h3 -> extends h1 h3.
Proof.
  intros [L1 D1] [L2 D2]. split; [lia|].
  intros i Hi. rewrite D2 by lia. now apply D1.
Qed.

Lemma same_restrictions_refl h : same_restrictions h h.
Proof. split; [reflexivity|]. intros i. split; reflexivity. Qed.

Lemma same_restrictions_trans h1 h2 h3 :
  same_restrictions h1 h2 -> same_restrictions h2 h3 -> same_restrictions h1 h3.
Proof.
  intros [L1 D1] [L2 D2]. split; [congruence|].
  intros i. destruct (D1 i) as [A B], (D2 i) as [C D]. split; congruence.
Qed.

Lemma same_restrictions_extends h h' : same_restrictions h h' -> extends h h'.
Proof.
  intros [L D]. split; [lia|]. intros i _. apply D.
Qed.

Lemma same_restrictions_alter g j h :
  (forall f, _domain (g f) = _domain f) ->
  (forall f, _restrictions (g f) = _restrictions f) ->
  same_restrictions h (alter g j h).
Proof.
  intros Hd Hr. split; [apply length_alter|].
  intros i. split; [now apply domain_alter|now apply restrictions_alter].
Qed.

Lemma same_restrictions_add_subframe i x h : same_restrictions h (add_subframe i x h).
Proof. apply same_restrictions_alter; reflexivity. Qed.

Lemma same_restrictions_update_subframes i s h :
  same_restrictions h (update_subframes i s h).
Proof. apply same_restrictions_alter; reflexivity. Qed.

Lemma same_restrictions_update_superframes i s h :
  same_restrictions h (update_superframes i s h).
Proof. apply same_restrictions_alter; reflexivity. Qed.

Lemma same_restrictions_fold_add_subframe res l h :
  same_restrictions h (fold_left (fun h' s => add_subframe s res h') l h).
Proof.
  revert h. induction l as [|s l IH]; intros h; simpl.
  - apply same_restrictions_refl.
  - eapply same_restrictions_trans; [|apply IH].
    apply same_restrictions_add_subframe.
Qed.

Lemma extends_set_restriction i k v h : extends h (set_restriction i k v h).
Proof.
  split.
  - unfold set_restriction. rewrite length_alter. lia.
  - intros j _. now apply domain_alter.
Qed.

Lemma restrictions_set_restriction_eq i k v h :
  i < length h ->
  _restrictions (frame_at (set_restriction i k v h) i) =
  dict_set (_restrictions (frame_at h i)) k v.
Proof. intros H. unfold set_restriction. now rewrite frame_at_alter_eq. Qed.

Lemma restrictions_set_restriction_ne i j k v h :
  j <> i ->
  _restrictions (frame_at (set_restriction i k v h) j) =
  _restrictions (frame_at h j).
Proof. intros H. unfold set_restriction. now rewrite frame_at_alter_ne. Qed.

(** *** Taking over a restriction that exists *)


(** *** Creating a restriction from scratch *)

Lemma find_frame_Some h d sym i0 i :
  find_frame h d sym i0 = Some i ->
  i0 <= i /\ i - i0 < length h /\ _domain (frame_at h (i - i0)) = d.
Proof.
  revert i0. induction h as [|f h IH]; intros i0; simpl; [discriminate|].
  destruct (Nat.eqb (_domain f) d && String.eqb (_symbol f) sym) eqn:E.
  - intros [= <-]. rewrite Nat.sub_diag. apply andb_true_iff in E as [E _].
    apply Nat.eqb_eq in E. repeat split; [lia|lia|exact E].
  - intros H. apply IH in H as (A & B & C).
    replace (i - i0) with (S (i - S i0)) by lia.
    repeat split; [lia|lia|exact C].
Qed.

Lemma frame_at_app_l h h' i : i < length h -> frame_at (h ++ h') i = frame_at h i.
Proof. intros H. unfold frame_at. now rewrite lookup_app_l. Qed.

Lemma LocalFrame_call_spec h d sym res h0 :
  LocalFrame_call h d sym = (res, h0) ->
  extends h h0 /\ res < length h0 /\ _domain (frame_at h0 res) = d /\
  (forall i, i < length h -> frame_at h0 i = frame_at h i) /\
  (find_frame h d sym 0 = None -> res = length h).
Proof.
  unfold LocalFrame_call. destruct (find_frame h d sym 0) as [i|] eqn:E.
  - intros [= <- <-]. apply find_frame_Some in E as (_ & B & C).
    rewrite Nat.sub_0_r in B, C.
    split; [apply extends_refl|].
    split; [exact B|]. split; [exact C|].
    split; [reflexivity|discriminate].
  - intros [= <- <-]. split; [split|].
    + rewrite length_app. lia.
    + intros i Hi. now rewrite frame_at_app_l.
    + split; [rewrite length_app; simpl; lia|].
      split; [unfold frame_at; now rewrite list_lookup_middle by reflexivity|].
      split; [intros i Hi; now apply frame_at_app_l|reflexivity].
Qed.

Section Restrict.
Variable is_subset : domain -> domain -> bool.

(** The loop [for sframe in self._superframes] of the last part of
    [restrict]: it changes no length, no domain and no set of
    superframes, and it records [res] in every frame it visits. *)
Lemma record_fold subdomain res l h :
  let h' := fold_left (fun h' sframe =>
                         set_restriction sframe subdomain res
                           (add_subframe sframe res h')) l h in
  length h' = length h /\
  (forall i, _domain (frame_at h' i) = _domain (frame_at h i)) /\
  (forall i, i < length h ->
     In i l \/ dict_get (_restrictions (frame_at h i)) subdomain = Some res ->
     dict_get (_restrictions (frame_at h' i)) subdomain = Some res).
Proof.
  revert h. induction l as [|s l IH]; intros h; simpl.
  - split; [reflexivity|]. split; [reflexivity|].
    intros i _ [[]|H]. exact H.
  - set (h1 := set_restriction s subdomain res (add_subframe s res h)).
    destruct (IH h1) as (L & D & R).
    assert (L1 : length h1 = length h).
    { unfold h1, set_restriction, add_subframe. now rewrite !length_alter. }
    split; [congruence|]. split.
    + intros i. rewrite D. unfold h1, set_restriction, add_subframe.
      rewrite !domain_alter; reflexivity.
    + intros i Hi Hin. apply R; [lia|].
      destruct (decide (i = s)) as [->|Hne].
      * right. unfold h1. rewrite restrictions_set_restriction_eq.
        -- apply dict_get_set_eq.
        -- unfold add_subframe. now rewrite length_alter.
      * destruct Hin as [[Heq|Hin]|Hset]; [congruence|now left|right].
        unfold h1. rewrite restrictions_set_restriction_ne by assumption.
        destruct (same_restrictions_add_subframe s res h) as [_ S].
        destruct (S i) as [_ ->]. exact Hset.
Qed.

Lemma link_smaller_spec subdomain res item h :
  let h' := link_smaller is_subset subdomain res h item in
  length h' = length h /\
  (forall i, _domain (frame_at h' i) = _domain (frame_at h i)) /\
  (forall i, i <> res ->
     _restrictions (frame_at h' i) = _restrictions (frame_at h i)).
Proof.
  destruct item as [dom rst]. simpl.
  destruct (is_subset dom subdomain); [|repeat split; reflexivity].
  unfold update_superframes, update_subframes, update_restrictions.
  split; [now rewrite !length_alter|]. split.
  - intros i. rewrite !domain_alter; reflexivity.
  - intros i Hi. rewrite !restrictions_alter by reflexivity.
    now rewrite frame_at_alter_ne.
Qed.

Lemma link_fold subdomain res items h :
  let h' := fold_left (link_smaller is_subset subdomain res) items h in
  length h' = length h /\
  (forall i, _domain (frame_at h' i) = _domain (frame_at h i)) /\
  (forall i, i <> res ->
     _restrictions (frame_at h' i) = _restrictions (frame_at h i)).
Proof.
  revert h. induction items as [|item items IH]; intros h; simpl.
  - repeat split; reflexivity.
  - destruct (IH (link_smaller is_subset subdomain res h item)) as (L & D & R).
    destruct (link_smaller_spec subdomain res item h) as (L1 & D1 & R1).
    split; [congruence|]. split.
    + intros i. now rewrite D, D1.
    + intros i Hi. now rewrite R, R1.
Qed.


(** *** The invariant of the store *)

Lemma store_ok_frame rank h i :
  store_ok rank h = true -> i < length h ->
  frame_ok rank h i (frame_at h i) = true.
Proof.
  unfold store_ok. rewrite forallb_forall. intros H Hi.
  apply H. apply in_seq. lia.
Qed.

Lemma frame_ok_spec rank h i f :
  frame_ok rank h i f = true ->
  In i (_superframes f) /\
  (forall s, In s (_superframes f) -> s < length h) /\
  (forall dom rst, In (dom, rst) (_restrictions f) ->
     rst < length h /\ _domain (frame_at h rst) = dom /\ rank rst < rank i).
Proof.
  unfold frame_ok. rewrite !andb_true_iff. intros [[A B] C]. repeat split.
  - apply existsb_exists in A as (x & Hx & E). apply Nat.eqb_eq in E. now subst.
  - intros s Hs. rewrite forallb_forall in B. apply Nat.ltb_lt. now apply B.
  - rewrite forallb_forall in C. apply C in H.
    rewrite !andb_true_iff in H. now apply Nat.ltb_lt.
  - rewrite forallb_forall in C. apply C in H.
    rewrite !andb_true_iff in H. apply Nat.eqb_eq. apply H.
  - rewrite forallb_forall in C. apply C in H.
    rewrite !andb_true_iff in H. now apply Nat.ltb_lt.
Qed.


(** *** The body of [restrict], one unfolding *)

Lemma restrict_eq fuel self subdomain h :
  restrict is_subset fuel self subdomain h =
  let f := frame_at h self in
  if Nat.eqb subdomain (_domain f) then Some (Return (self, h))
  else if dict_mem (_restrictions f) subdomain then
    Some (return_restriction self subdomain h)
  else if negb (is_subset subdomain (_domain f)) then
    Some (Raise (ValueError not_a_subdomain))
  else
    match find (tighter_hit is_subset h subdomain) (_restrictions f) with
    | Some (_, rst) =>
        match dict_get (_restrictions (frame_at h rst)) subdomain with
        | Some res => Some (take_over self subdomain res h)
        | None => Some (Raise (KeyError "subdomain"))
        end
    | None =>
        match find (tighter is_subset subdomain) (_restrictions f) with
        | Some (_, rst) =>
            match fuel with
            | O => None
            | S fuel' =>
                match restrict is_subset fuel' rst subdomain h with
                | Some (Return (r, h1)) =>
                    Some (return_restriction self subdomain
                            (set_restriction self subdomain r h1))
                | other => other
                end
            end
        | None =>
            match find (larger_hit h subdomain) (_superframes f) with
            | Some sframe =>
                match dict_get (_restrictions (frame_at h sframe)) subdomain with
                | Some res => Some (take_over self subdomain res h)
                | None => Some (Raise (KeyError "subdomain"))
                end
            | None => Some (from_scratch is_subset self subdomain h)
            end
        end
    end.
Proof. destruct fuel; reflexivity. Qed.

(** A restriction that is stored is returned, whatever the bound. *)
Lemma restrict_stored fuel self subdomain r h :
  subdomain <> _domain (frame_at h self) ->
  dict_get (_restrictions (frame_at h self)) subdomain = Some r ->
  restrict is_subset fuel self subdomain h = Some (Return (r, h)).
Proof.
  intros Hne Hget. rewrite restrict_eq. cbv zeta.
  apply Nat.eqb_neq in Hne. rewrite Hne.
  unfold dict_mem, return_restriction. now rewrite Hget.
Qed.


(** *** The first call *)



End Restrict.

(** *** The chain of four open subsets *)

Example store3_frames :
  map _domain store3 = [3; 0; 1; 2] /\
  map _superframes store3 = [[0]; [1; 0; 2; 3]; [2; 0; 3]; [3; 0]] /\
  map _restrictions store3 = [[(0, 1); (1, 2); (2, 3)]; []; []; []].
Proof. repeat split. Qed.



End FramesFacts.

Module ToricFacts.
Import Py Toric.

(** *** Comparison is structural *)

Lemma cmp_Z_eq a b : cmp_Z a b = 0 <-> a = b.
Proof.
  unfold cmp_Z. destruct (Z.compare_spec a b); split; intros; try lia; discriminate.
Qed.

Lemma cmp_nat_eq a b : cmp_nat a b = 0 <-> a = b.
Proof. unfold cmp_nat. rewrite cmp_Z_eq. lia. Qed.

Lemma cmp_list_eq {A : Type} (cmpA : A -> A -> Z) :
  (forall a b, cmpA a b = 0 <-> a = b) ->
  forall l1 l2, cmp_list cmpA l1 l2 = 0 <-> l1 = l2.
Proof.
  intros HA. induction l1 as [|a l1 IH]; intros [|b l2]; simpl.
  - tauto.
  - split; [lia|discriminate].
  - split; [lia|discriminate].
  - destruct (Z.eqb (cmpA a b) 0) eqn:E.
    + apply Z.eqb_eq, HA in E. subst b. rewrite IH. split; congruence.
    + apply Z.eqb_neq in E. split; [tauto|].
      intros [= -> _]. exfalso. apply E. now apply HA.
Qed.

Lemma first_nonzero_eq cs : first_nonzero cs = 0 <-> Forall (fun c => c = 0) cs.
Proof.
  induction cs as [|c cs IH]; simpl.
  - split; [constructor|reflexivity].
  - destruct (Z.eqb c 0) eqn:E.
    + apply Z.eqb_eq in E. rewrite IH. split.
      * now constructor.
      * now inversion 1.
    + apply Z.eqb_neq in E. split; [tauto|]. now inversion 1.
Qed.

Lemma cmp_Fan_eq F G : cmp_Fan F G = 0 <-> F = G.
Proof.
  unfold cmp_Fan. rewrite first_nonzero_eq. split.
  - intros HF. inversion HF as [|? ? H1 HF1]; subst.
    inversion HF1 as [|? ? H2 _]; subst.
    apply (cmp_list_eq _ (cmp_list_eq _ cmp_Z_eq)) in H1.
    apply (cmp_list_eq _ (cmp_list_eq _ cmp_nat_eq)) in H2.
    destruct F, G; simpl in *; congruence.
  - intros ->. repeat constructor.
    + now apply (cmp_list_eq _ (cmp_list_eq _ cmp_Z_eq)).
    + now apply (cmp_list_eq _ (cmp_list_eq _ cmp_nat_eq)).
Qed.


Lemma Fan_ne_spec F G : Fan_ne F G = true <-> F <> G.
Proof.
  unfold Fan_ne. rewrite negb_true_iff, Z.eqb_neq. now rewrite cmp_Fan_eq.
Qed.

Lemma Fan_ne_refl F : Fan_ne F F = false.
Proof.
  destruct (Fan_ne F F) eqn:E; [|reflexivity].
  apply Fan_ne_spec in E. congruence.
Qed.

(** *** The constructor *)

Lemma init_accepts parent fm check :
  fan (hom_domain parent) = domain_fan fm ->
  fan (hom_codomain parent) = codomain_fan fm ->
  SchemeMorphism_fan_toric_variety__init__ parent fm check =
  Return (mkFanToric parent fm).
Proof.
  intros H1 H2. unfold SchemeMorphism_fan_toric_variety__init__.
  rewrite H1, H2, !Fan_ne_refl, !andb_false_r. reflexivity.
Qed.

(** C10.  With [check=True] the constructor raises [ValueError] if and
    only if the domain fan of the fan morphism differs from the fan of
    the domain variety or its codomain fan differs from the fan of the
    codomain variety; it raises nothing else, and the object it returns
    holds the fan morphism that was passed in, which [fan_morphism()]
    returns unchanged. *)
Theorem init_check parent fm :
  ((exists msg, SchemeMorphism_fan_toric_variety__init__ parent fm true
                = Raise (ValueError msg)) <->
   (fan (hom_domain parent) <> domain_fan fm \/
    fan (hom_codomain parent) <> codomain_fan fm)) /\
  ((exists self, SchemeMorphism_fan_toric_variety__init__ parent fm true
                 = Return self /\ fan_morphism self = fm) \/
   (exists msg, SchemeMorphism_fan_toric_variety__init__ parent fm true
                = Raise (ValueError msg))).
Proof.
  unfold SchemeMorphism_fan_toric_variety__init__. simpl.
  destruct (Fan_ne (fan (hom_domain parent)) (domain_fan fm)) eqn:E1.
  { apply Fan_ne_spec in E1. split; [|right; eauto].
    split; [intros _; now left|intros _; eauto]. }
  destruct (Fan_ne (fan (hom_codomain parent)) (codomain_fan fm)) eqn:E2.
  { apply Fan_ne_spec in E2. split; [|right; eauto].
    split; [intros _; now right|intros _; eauto]. }
  split; [|left; eauto].
  split.
  - intros [msg Hmsg]. discriminate.
  - intros [Hd|Hc].
    + apply Fan_ne_spec in Hd. congruence.
    + apply Fan_ne_spec in Hc. congruence.
Qed.

(** Without [check] nothing is compared. *)
Lemma init_unchecked parent fm :
  SchemeMorphism_fan_toric_variety__init__ parent fm false =
  Return (mkFanToric parent fm).
Proof. reflexivity. Qed.

(** *** [__cmp__] *)

Lemma class_address_inj c d : class_address c = class_address d -> c = d.
Proof.
  destruct c, d; simpl; intros Hcd; try reflexivity; try lia.
  f_equal. lia.
Qed.




Example cmp_with_int_doc :
  __cmp__ Small.patch (Obj_int 1) *
  cmp_Z (class_address Class_int) (class_address Class_fan_toric_variety) = -1.
Proof. reflexivity. Qed.

(** *** [as_fan_morphism] *)

(** C3 (amended).  [as_fan_morphism] raises [NotImplementedError] for
    every morphism given by homogeneous polynomials. *)
Theorem as_fan_morphism_not_implemented {R : Type}
    (p : SchemeMorphism_polynomial_toric_variety R) :
  as_fan_morphism p =
  Raise (NotImplementedError
           "expressing toric morphisms as fan morphisms is not implemented yet!").
Proof. reflexivity. Qed.

(** *** [as_polynomial_map] *)

Section AsPolynomialMap.
Context `{Geometry} {R : Type} `{CoordinateRing R}.

Variable X : ToricVariety.
(** The homogeneity that the constructor checks is kept by the
    operations of the loop. *)
Hypothesis one_homogeneous : is_homogeneous X one = true.
Hypothesis mul_homogeneous : forall (p : R) (j : nat) (d : Z),
  is_homogeneous X p = true ->
  is_homogeneous X (mul p (pow (gen j) d)) = true.





End AsPolynomialMap.



Section AsPolynomialMapSpec.
Context `{Geometry} {R : Type} `{CoordinateRing R}.



End AsPolynomialMapSpec.

(** *** The generic fiber and the fiber components *)

Lemma index_of_elem (r : vector) (rays : list vector) :
  r ∈ rays -> exists i, index_of r rays = Return i.
Proof.
  induction rays as [|r' rays IH]; intros Hin.
  - now apply elem_of_nil in Hin.
  - simpl. destruct (decide (r' = r)) as [_|Hne]; [eauto|].
    apply elem_of_cons in Hin as [Heq|Hin]; [congruence|].
    destruct (IH Hin) as [i ->]. simpl. eauto.
Qed.

Lemma indices_of_elem (rs rays : list vector) :
  (forall r, r ∈ rs -> r ∈ rays) -> exists l, indices_of rs rays = Return l.
Proof.
  induction rs as [|r rs IH]; intros Hin; simpl; [eauto|].
  destruct (index_of_elem r rays) as [i ->]; [apply Hin; left|].
  destruct IH as [l ->]; [intros r' Hr'; apply Hin; now right|].
  simpl. eauto.
Qed.

Lemma cones_of_fan_elem (cs : list (list vector)) (rays : list vector) :
  Forall (fun c => forall r, r ∈ c -> r ∈ rays) cs ->
  exists l, cones_of_fan cs rays = Return l.
Proof.
  induction 1 as [|c cs Hc _ [l IH]]; simpl; [eauto|].
  destruct (indices_of_elem c rays Hc) as [is_ ->]. rewrite IH. simpl. eauto.
Qed.

Lemma rays_of_elem (F : Fan) (c : list nat) (r : vector) :
  r ∈ rays_of F c -> r ∈ fan_rays F.
Proof.
  unfold rays_of. intros Hin. apply list_elem_of_omap in Hin as (i & _ & Hi).
  eapply list_elem_of_lookup_2; eauto.
Qed.

Section Fibers.
Context `{Geometry}.

(** [fiber] raises nothing: it returns a variety that carries the toric
    embedding into the domain, along the echelonized basis matrix of the
    kernel lattice. *)
Lemma fiber_returns (self : SchemeMorphism_fan_toric_variety) :
  exists X,
    fiber self = Return X /\
    embedding_morphism X =
    Some (Embedding_fan (domain self)
            (mkFanMorphism (echelonized_basis_matrix (fan_morphism self))
                           (fan X) (fan (domain self)))).
Proof.
  unfold fiber.
  destruct (cones_of_fan_elem
              (map (rays_of (kernel_fan (fan_morphism self)))
                   (fan_cones (kernel_fan (fan_morphism self))))
              (fan_rays (kernel_fan (fan_morphism self)))) as [cones Hc].
  { apply Forall_forall. intros c Hin. apply list_elem_of_In in Hin.
    apply in_map_iff in Hin as (c0 & <- & _). intros r. apply rays_of_elem. }
  rewrite Hc. simpl. rewrite init_accepts by reflexivity. simpl.
  eexists. split; reflexivity.
Qed.

(** C8.  On the trivial cone, [fiber_component] returns what [fiber()]
    returns, the generic fiber with its toric embedding; no embedding of
    a fiber component is built. *)
Theorem fiber_component_trivial (self : SchemeMorphism_fan_toric_variety)
    (c : Cone) :
  is_trivial c = true ->
  fiber_component self c = fiber self /\
  exists X,
    fiber_component self c = Return X /\
    embedding_morphism X =
    Some (Embedding_fan (domain self)
            (mkFanMorphism (echelonized_basis_matrix (fan_morphism self))
                           (fan X) (fan (domain self)))).
Proof.
  intros Hc. unfold fiber_component. rewrite Hc. split; [reflexivity|].
  apply fiber_returns.
Qed.

(** On any other cone the embedding of a fiber component is built. *)
Lemma fiber_component_nontrivial (self : SchemeMorphism_fan_toric_variety)
    (c : Cone) :
  is_trivial c = false ->
  fiber_component self c =
  SchemeMorphism_fan_fiber_toric_variety (domain self) (fan_morphism self) c true.
Proof. intros Hc. unfold fiber_component. now rewrite Hc. Qed.

(** *** [factor] *)


End Fibers.

(** *** The fiber graph *)




Section FiberGraph.
Context `{Geometry}.












End FiberGraph.

End ToricFacts.

Module ToricExamples.
Import Py Toric Toric.Small ToricFacts.

(** C3, as stated, fails: the polynomial morphism [z |-> [z : 1]] from
    the affine line to the projective line is the polynomial form of the
    toric morphism [A1.hom(matrix([[1]]), P1)], and [as_fan_morphism]
    returns no morphism for it. *)
Lemma as_fan_morphism_counterexample :
  exists p : SchemeMorphism_polynomial_toric_variety (list Z),
    as_polynomial_map Small.patch = Return p /\
    _polys p = [[1]; []] /\
    ~ (exists g, as_fan_morphism p = Return g).
Proof.
  eexists. split; [reflexivity|]. split; [reflexivity|].
  intros [g Hg]. discriminate.
Qed.

(** The examples of the module documentation: [A1.hom(matrix([[1]]), P1)]
    is [z |-> [z : 1]], the line [P1.hom(matrix([[1, 0]]), P2)] is
    [[u : v] |-> [u : v : v]], and the blowup has no polynomial form. *)
Example as_polynomial_map_doc :
  as_polynomial_map patch = Return (mkPolyToric (parent patch) [[1]; []]) /\
  as_polynomial_map line =
    Return (mkPolyToric (parent line) [[1]; [0; 1]; [0; 1]]) /\
  as_polynomial_map (R := list Z) blowup = Raise (TypeError no_homogeneous_polynomials).
Proof. repeat split. Qed.


(** The theorem on [fiber_component] applies to the blowup. *)
Lemma fiber_component_trivial_witness :
  fiber_component blowup trivial_cone = fiber blowup /\
  exists X,
    fiber_component blowup trivial_cone = Return X /\
    embedding_morphism X =
    Some (Embedding_fan (domain blowup)
            (mkFanMorphism (echelonized_basis_matrix (fan_morphism blowup))
                           (fan X) (fan (domain blowup)))).
Proof. apply (fiber_component_trivial blowup trivial_cone). reflexivity. Defined.





(** The subdivision of the cone of [A2_Z2] by three rays: three
    components, the consecutive ones meeting. *)
Example fiber_graph_subdivision :
  exists g, fiber_graph subdivision (cone_of_indices A2_Z2 [0; 1]%nat) = Return g /\
            vertices g = [0; 1; 2]%nat /\ edges g = [(0, 1); (1, 2)]%nat.
Proof. eexists. repeat split. Qed.


End ToricExamples.

(** ** More on [restrict] *)

Module FramesExtra.
Import Py Frames FramesChecks FramesFacts.
Local Open Scope nat_scope.

Lemma dict_get_In d k v : dict_get d k = Some v -> In (k, v) d.
Proof.
  induction d as [|[k' v'] d IH]; simpl; [discriminate|].
  destruct (Nat.eqb k' k) eqn:E.
  - intros [= ->]. apply Nat.eqb_eq in E. subst. now left.
  - intros Hd. right. now apply IH.
Qed.

Lemma take_over_frames self subdomain res h :
  self < length h ->
  exists h', take_over self subdomain res h = Return (res, h') /\
             length h' = length h /\
             forall i, _domain (frame_at h' i) = _domain (frame_at h i).
Proof.
  intros Hself. unfold take_over.
  set (h1 := set_restriction self subdomain res h).
  set (h2 := update_superframes res (_superframes (frame_at h1 self)) h1).
  set (h3 := fold_left _ _ h2).
  assert (S12 : same_restrictions h1 h2)
    by apply same_restrictions_update_superframes.
  assert (S23 : same_restrictions h2 h3)
    by apply same_restrictions_fold_add_subframe.
  destruct (same_restrictions_trans _ _ _ S12 S23) as [L13 D13].
  assert (L1 : length h1 = length h)
    by (unfold h1, set_restriction; apply length_alter).
  exists h3. unfold return_restriction.
  destruct (D13 self) as [_ ->]. unfold h1 at 1.
  rewrite restrictions_set_restriction_eq by assumption.
  rewrite dict_get_set_eq. split; [reflexivity|]. split; [congruence|].
  intros i. destruct (D13 i) as [-> _]. unfold h1, set_restriction.
  now apply domain_alter.
Qed.

Section Restrict.
Variable is_subset : domain -> domain -> bool.

Lemma from_scratch_frames self subdomain h :
  self < length h ->
  In self (_superframes (frame_at h self)) ->
  subdomain <> _domain (frame_at h self) ->
  exists r h',
    from_scratch is_subset self subdomain h = Return (r, h') /\
    extends h h' /\ length h' <= S (length h) /\
    r < length h' /\ _domain (frame_at h' r) = subdomain.
Proof.
  intros Hself Hrefl Hne. unfold from_scratch.
  destruct (LocalFrame_call h subdomain (_symbol (frame_at h self)))
    as [res h0] eqn:Ecall.
  assert (L0 : length h0 <= S (length h)).
  { unfold LocalFrame_call in Ecall.
    destruct (find_frame h subdomain (_symbol (frame_at h self)) 0);
      injection Ecall as <- <-; [lia|rewrite length_app; simpl; lia]. }
  apply LocalFrame_call_spec in Ecall as ([L0' D0] & Hres & Dres & Same & _).
  assert (Hneq : res <> self).
  { intros ->. rewrite Same in Dres by assumption. congruence. }
  set (h1 := update_superframes res (_superframes (frame_at h0 self)) h0).
  assert (Sup1 : _superframes (frame_at h1 self) = _superframes (frame_at h self)).
  { unfold h1, update_superframes. rewrite frame_at_alter_ne by congruence.
    now rewrite Same. }
  set (h2 := fold_left _ _ h1).
  set (h3 := fold_left _ _ h2).
  destruct (same_restrictions_update_superframes res
              (_superframes (frame_at h0 self)) h0) as [L1 D1].
  fold h1 in L1, D1.
  destruct (record_fold subdomain res (_superframes (frame_at h1 self)) h1)
    as (L2 & D2 & R2). fold h2 in L2, D2, R2.
  destruct (link_fold is_subset subdomain res
              (_restrictions (frame_at h2 self)) h2) as (L3 & D3 & R3).
  fold h3 in L3, D3, R3.
  assert (Hget : dict_get (_restrictions (frame_at h3 self)) subdomain = Some res).
  { rewrite R3 by congruence. apply R2; [lia|left]. now rewrite Sup1. }
  exists res, h3. unfold return_restriction. rewrite Hget.
  split; [reflexivity|]. split; [|split; [lia|split; [lia|]]].
  - split; [lia|]. intros i Hi. rewrite D3, D2. destruct (D1 i) as [-> _].
    now apply D0.
  - rewrite D3, D2. destruct (D1 res) as [-> _]. exact Dres.
Qed.

Lemma stored_frame rank h i subdomain r :
  store_ok rank h = true -> i < length h ->
  dict_get (_restrictions (frame_at h i)) subdomain = Some r ->
  r < length h /\ _domain (frame_at h r) = subdomain.
Proof.
  intros Hok Hi Hget.
  destruct (frame_ok_spec _ _ _ _ (store_ok_frame rank h i Hok Hi))
    as (_ & _ & Hitems).
  destruct (Hitems subdomain r (dict_get_In _ _ _ Hget)) as (A & B & _).
  now split.
Qed.

Lemma restrict_lands rank h subdomain :
  store_ok rank h = true ->
  forall k self,
    rank self <= k -> self < length h ->
    rejects is_subset h self subdomain = false ->
    exists r h',
      (forall n, rank self <= n ->
         restrict is_subset n self subdomain h = Some (Return (r, h'))) /\
      extends h h' /\ length h' <= S (length h) /\
      r < length h' /\ _domain (frame_at h' r) = subdomain.
Proof.
  intros Hok k. induction k as [k IH] using (well_founded_induction lt_wf).
  intros self Hk Hself Hrej.
  destruct (frame_ok_spec _ _ _ _ (store_ok_frame rank h self Hok Hself))
    as (Hrefl & Hclosed & Hitems).
  unfold rejects in Hrej. cbv zeta in Hrej.
  destruct (Nat.eqb subdomain (_domain (frame_at h self))) eqn:Edom.
  { exists self, h. split; [|split; [apply extends_refl|]].
    - intros n _. rewrite restrict_eq. cbv zeta. now rewrite Edom.
    - apply Nat.eqb_eq in Edom. repeat split; [lia|assumption|congruence]. }
  assert (Hne : subdomain <> _domain (frame_at h self)) by now apply Nat.eqb_neq.
  destruct (dict_mem (_restrictions (frame_at h self)) subdomain) eqn:Emem.
  { destruct (dict_mem_get _ _ Emem) as [r Hr]. exists r, h.
    destruct (stored_frame rank h self subdomain r Hok Hself Hr) as [A B].
    split; [|split; [apply extends_refl|]].
    - intros n _. now apply restrict_stored.
    - repeat split; [lia|assumption|assumption]. }
  simpl in Hrej. apply negb_false_iff in Hrej. rename Hrej into Hsub.
  destruct (find (tighter_hit is_subset h subdomain)
              (_restrictions (frame_at h self))) as [[dom rst]|] eqn:E1.
  { pose proof (find_some _ _ E1) as [Hin Hhit].
    unfold tighter_hit in Hhit. simpl in Hhit.
    apply andb_true_iff in Hhit as [Ht Hm].
    destruct (dict_mem_get _ _ Hm) as [res Hres].
    destruct (Hitems dom rst Hin) as (Hrst & _ & _).
    destruct (stored_frame rank h rst subdomain res Hok Hrst Hres) as [A B].
    destruct (take_over_frames self subdomain res h Hself) as (h' & Et & L & D).
    exists res, h'. split; [|split; [|split; [lia|split; [lia|]]]].
    - intros n _. rewrite restrict_eq. cbv zeta.
      rewrite Edom, Emem, Hsub, E1, Hres. simpl. now rewrite Et.
    - split; [lia|]. intros i _. apply D.
    - now rewrite D. }
  destruct (find (tighter is_subset subdomain)
              (_restrictions (frame_at h self))) as [[dom rst]|] eqn:E2.
  { pose proof (find_some _ _ E2) as [Hin Ht]. unfold tighter in Ht. simpl in Ht.
    destruct (Hitems dom rst Hin) as (Hrst & Hdom & Hrank).
    assert (Hrej' : rejects is_subset h rst subdomain = false).
    { unfold rejects. rewrite Hdom, Ht. simpl. apply andb_false_r. }
    destruct (IH (rank rst) ltac:(lia) rst (Nat.le_refl _) Hrst Hrej')
      as (r & h1 & Hrun & Ex1 & L1 & Hr & Dr).
    assert (Hself1 : self < length h1) by (destruct Ex1; lia).
    exists r, (set_restriction self subdomain r h1).
    assert (Hget : dict_get (_restrictions
                     (frame_at (set_restriction self subdomain r h1) self))
                     subdomain = Some r).
    { rewrite restrictions_set_restriction_eq by assumption.
      apply dict_get_set_eq. }
    assert (Hlen : length (set_restriction self subdomain r h1) = length h1)
      by (unfold set_restriction; apply length_alter).
    split; [|split; [|split; [lia|split; [lia|]]]].
    - intros n Hn. destruct n as [|n]; [lia|].
      rewrite restrict_eq. cbv zeta.
      rewrite Edom, Emem, Hsub, E1, E2. simpl.
      rewrite (Hrun n) by lia. unfold return_restriction. now rewrite Hget.
    - eapply extends_trans; [exact Ex1|apply extends_set_restriction].
    - unfold set_restriction. rewrite domain_alter by reflexivity. exact Dr. }
  destruct (find (larger_hit h subdomain)
              (_superframes (frame_at h self))) as [sframe|] eqn:E3.
  { pose proof (find_some _ _ E3) as [Hin Hm]. unfold larger_hit in Hm.
    destruct (dict_mem_get _ _ Hm) as [res Hres].
    pose proof (Hclosed sframe Hin) as Hs.
    destruct (stored_frame rank h sframe subdomain res Hok Hs Hres) as [A B].
    destruct (take_over_frames self subdomain res h Hself) as (h' & Et & L & D).
    exists res, h'. split; [|split; [|split; [lia|split; [lia|]]]].
    - intros n _. rewrite restrict_eq. cbv zeta.
      rewrite Edom, Emem, Hsub, E1, E2, E3, Hres. simpl. now rewrite Et.
    - split; [lia|]. intros i _. apply D.
    - now rewrite D. }
  destruct (from_scratch_frames self subdomain h Hself Hrefl Hne)
    as (r & h' & Es & Ex & L & Hr & Dr).
  exists r, h'. split; [|split; [exact Ex|repeat split; assumption]].
  intros n _. rewrite restrict_eq. cbv zeta.
  rewrite Edom, Emem, Hsub, E1, E2, E3. simpl. now rewrite Es.
Qed.

(** X1.  In a store that satisfies [store_ok], [restrict] never runs out
    of its bound and never fails with [KeyError]: it raises [ValueError]
    exactly when the subdomain is neither the domain of the frame, nor a
    key of its [_restrictions], nor a subset of its domain; otherwise it
    returns a frame of the store whose domain is the subdomain, keeps
    every frame of the store on its domain, and builds at most one new
    frame. *)
Theorem restrict_total rank h self subdomain :
  store_ok rank h = true ->
  self < length h ->
  if rejects is_subset h self subdomain
  then forall n, restrict is_subset n self subdomain h
                 = Some (Raise (ValueError not_a_subdomain))
  else exists r h',
         (forall n, rank self <= n ->
            restrict is_subset n self subdomain h = Some (Return (r, h'))) /\
         extends h h' /\ length h' <= S (length h) /\
         r < length h' /\ _domain (frame_at h' r) = subdomain.
Proof.
  intros Hok Hself. destruct (rejects is_subset h self subdomain) eqn:E.
  - unfold rejects in E. cbv zeta in E.
    apply andb_true_iff in E as [E E3]. apply andb_true_iff in E as [E1 E2].
    apply negb_true_iff in E1, E2.
    intros n. rewrite restrict_eq. cbv zeta. now rewrite E1, E2, E3.
  - now apply (restrict_lands rank h subdomain Hok (rank self)).
Qed.

End Restrict.

End FramesExtra.
